(** * CalmStart offline layer: service worker and cache facade

    A shallow embedding of [service-worker.js] (install, activate and fetch
    handlers) and of the cache-facing part of [app.js]
    ([isSessionCached], [renderSessions], the [#offlineToggle] change
    handler), followed by the properties of the offline-caching layer.

    The handlers are written against the browser's Cache Storage and Fetch
    interfaces.  Those interfaces are not part of the repository; module
    [Platform] gives them an executable model (documented there), and the
    handlers are transcribed on top of it, statement by statement. *)

From Stdlib Require Import String List Bool Arith ZArith Lia DecimalString.
Import ListNotations.
Open Scope string_scope.
Open Scope list_scope.

(* ================================================================= *)
(** ** Strings, as the handlers use them *)

(** [s.includes(sub)] *)
Fixpoint includes (s sub : string) : bool :=
  if String.prefix sub s then true
  else match s with
       | EmptyString => false
       | String _ s' => includes s' sub
       end.

(** [k.startsWith(p)] *)
Definition startsWith (k p : string) : bool := String.prefix p k.

(** [arr.includes(x)] on an array of strings *)
Definition array_includes (arr : list string) (x : string) : bool :=
  existsb (String.eqb x) arr.

(* ================================================================= *)
(** ** Data model *)

(** A GET request, identified by its URL; [pathname] is what
    [new URL(request.url).pathname] returns, [search] the query string. *)
Record Request := mkRequest {
  origin : string;
  pathname : string;
  search : string
}.

Definition Request_eqb (a b : Request) : bool :=
  String.eqb (origin a) (origin b)
  && String.eqb (pathname a) (pathname b)
  && String.eqb (search a) (search b).

Inductive ResponseType := basic | error.

Record Response := mkResponse {
  rtype : ResponseType;
  status : nat;
  body : string
}.

(** [response.ok] *)
Definition ok (r : Response) : bool :=
  ((200 <=? status r) && (status r <=? 299))%nat.

(** [Response.error()] *)
Definition Response_error : Response := mkResponse error 0 "".

(** One named cache: request/response pairs in insertion order. *)
Definition Cache := list (Request * Response).

(** The origin's cache storage: named caches in creation order. *)
Definition CacheStorage := list (string * Cache).

(** What the network does with a request: the fetch promise rejects, or it
    resolves with a response of whatever status the server sent. *)
Inductive Transport :=
| Unreachable
| Served (r : Response).

Inductive Exn :=
| FetchFailed     (* TypeError of a rejected fetch *)
| BadResponse     (* TypeError of cache.add / cache.addAll on a response that is not ok *)
| StoreFault.     (* a rejected cache storage operation *)

(** A catalog entry of [sessions.json]; [file] is the audio URL, already
    resolved against the page. *)
Record Session := mkSession {
  id : string;
  title : string;
  category : string;
  file : Request
}.

(** The part of the page that the cache facade reads and writes. *)
Record Page := mkPage {
  sessions : list Session;
  current : option Session;
  categoryFilter : string;
  offlineToggle_checked : bool;
  sessionList : list (string * bool);   (* rendered rows: session id, offline badge *)
  errorToast : option string
}.

Record World := mkWorld {
  storage : CacheStorage;
  network : Request -> Transport;
  faults : list bool;          (* outcome of the coming storage operations *)
  fetched : list Request;      (* network accesses so far, oldest first *)
  console : list string;
  page : Page
}.

Definition set_storage (s : CacheStorage) (w : World) : World :=
  mkWorld s (network w) (faults w) (fetched w) (console w) (page w).
Definition set_network (n : Request -> Transport) (w : World) : World :=
  mkWorld (storage w) n (faults w) (fetched w) (console w) (page w).
Definition set_faults (f : list bool) (w : World) : World :=
  mkWorld (storage w) (network w) f (fetched w) (console w) (page w).
Definition set_fetched (l : list Request) (w : World) : World :=
  mkWorld (storage w) (network w) (faults w) l (console w) (page w).
Definition set_console (c : list string) (w : World) : World :=
  mkWorld (storage w) (network w) (faults w) (fetched w) c (page w).
Definition set_page (p : Page) (w : World) : World :=
  mkWorld (storage w) (network w) (faults w) (fetched w) (console w) p.

(* ================================================================= *)
(** ** Promises: state passing with rejection *)

Inductive Outcome (A : Type) :=
| Resolved (a : A)
| Rejected (e : Exn).
Arguments Resolved {A} a.
Arguments Rejected {A} e.

Definition Async (A : Type) : Type := World -> Outcome A * World.

Definition ret {A} (a : A) : Async A := fun w => (Resolved a, w).

Definition throw {A} (e : Exn) : Async A := fun w => (Rejected e, w).

(** [await c1; c2] *)
Definition bind {A B} (c1 : Async A) (c2 : A -> Async B) : Async B :=
  fun w => match c1 w with
           | (Resolved a, w1) => c2 a w1
           | (Rejected e, w1) => (Rejected e, w1)
           end.

(** [try { c } catch (e) { h }] *)
Definition try_catch {A} (c : Async A) (h : Exn -> Async A) : Async A :=
  fun w => match c w with
           | (Resolved a, w1) => (Resolved a, w1)
           | (Rejected e, w1) => h e w1
           end.

Definition console_error (msg : string) : Async unit :=
  fun w => (Resolved tt, set_console (console w ++ [msg]) w).

(** A promise that is started and not awaited: it runs, and its rejection
    reaches nobody but the console. *)
Definition detached {A} (c : Async A) : Async unit :=
  fun w => match c w with
           | (Resolved _, w1) => (Resolved tt, w1)
           | (Rejected _, w1) => console_error "Uncaught (in promise)" w1
           end.

(** [Promise.all]: every promise of the array has been started; the result
    rejects with the first rejection. *)
Fixpoint promise_all {A} (ps : list (Async A)) : Async (list A) :=
  fun w => match ps with
           | [] => (Resolved [], w)
           | p :: ps' =>
             let (r, w1) := p w in
             let (rs, w2) := promise_all ps' w1 in
             (match r, rs with
              | Rejected e, _ => Rejected e
              | Resolved _, Rejected e => Rejected e
              | Resolved a, Resolved l => Resolved (a :: l)
              end, w2)
           end.

Definition gets {A} (f : World -> A) : Async A := fun w => (Resolved (f w), w).
Definition modify (f : World -> World) : Async unit := fun w => (Resolved tt, f w).

Declare Scope async_scope.
Delimit Scope async_scope with async.
Notation "x <- c1 ;; c2" := (bind c1 (fun x => c2))
  (at level 61, c1 at next level, right associativity) : async_scope.
Notation "c1 ;; c2" := (bind c1 (fun _ => c2))
  (at level 61, right associativity) : async_scope.
Open Scope async_scope.

(* ================================================================= *)
(** ** The browser interfaces the handlers call *)

Module Platform.

(** Lookup of a named cache, and of a request inside one cache. *)
Fixpoint lookup_store (name : string) (s : CacheStorage) : option Cache :=
  match s with
  | [] => None
  | (n, c) :: s' => if String.eqb n name then Some c else lookup_store name s'
  end.

Definition entries (name : string) (s : CacheStorage) : Cache :=
  match lookup_store name s with
  | Some c => c
  | None => []
  end.

Fixpoint find_entry (req : Request) (c : Cache) : option Response :=
  match c with
  | [] => None
  | (k, r) :: c' => if Request_eqb k req then Some r else find_entry req c'
  end.

Definition remove_entry (req : Request) (c : Cache) : Cache :=
  filter (fun e => negb (Request_eqb (fst e) req)) c.

(** A put replaces whatever the cache holds for the request. *)
Definition put_entry (req : Request) (resp : Response) (c : Cache) : Cache :=
  remove_entry req c ++ [(req, resp)].

Fixpoint update_store (name : string) (f : Cache -> Cache) (s : CacheStorage)
  : CacheStorage :=
  match s with
  | [] => []
  | (n, c) :: s' =>
    if String.eqb n name then (n, f c) :: s' else (n, c) :: update_store name f s'
  end.

Definition has_store (name : string) (s : CacheStorage) : bool :=
  match lookup_store name s with Some _ => true | None => false end.

(** First match over every cache of the storage, in creation order. *)
Fixpoint match_all (req : Request) (s : CacheStorage) : option Response :=
  match s with
  | [] => None
  | (_, c) :: s' =>
    match find_entry req c with
    | Some r => Some r
    | None => match_all req s'
    end
  end.

(** Every storage operation may be rejected by the browser (quota, a
    response the cache refuses such as a partial one, a broken body stream,
    a storage error).  The schedule [faults] says which of the coming
    operations are: its head decides the next one, an exhausted schedule
    means no further rejection.  A rejected operation changes nothing. *)
Definition store_op : Async unit :=
  fun w => match faults w with
           | [] => (Resolved tt, w)
           | false :: fs => (Resolved tt, set_faults fs w)
           | true :: fs => (Rejected StoreFault, set_faults fs w)
           end.

(** [fetch(request)]: the transport, logged.  The worker's fetches are not
    intercepted again, and the page's retrieval through [cache.add] is
    taken to reach the transport as well: the two components meet in the
    storage only. *)
Definition fetch (req : Request) : Async Response :=
  fun w => let w1 := set_fetched (fetched w ++ [req]) w in
           match network w req with
           | Unreachable => (Rejected FetchFailed, w1)
           | Served r => (Resolved r, w1)
           end.

(** [caches.open(name)]: creates the cache when there is none of that name.
    The handle is the name. *)
Definition with_store (name : string) (s : CacheStorage) : CacheStorage :=
  if has_store name s then s else s ++ [(name, [])].

Definition caches_open (name : string) : Async string :=
  store_op ;;
  modify (fun w => set_storage (with_store name (storage w)) w) ;;
  ret name.

(** [cache.match(request)] *)
Definition cache_match (cache : string) (req : Request) : Async (option Response) :=
  store_op ;;
  gets (fun w => find_entry req (entries cache (storage w))).

(** [cache.put(request, response)] *)
Definition cache_put (cache : string) (req : Request) (resp : Response) : Async unit :=
  store_op ;;
  modify (fun w => set_storage (update_store cache (put_entry req resp) (storage w)) w).

(** [cache.add(request)]: fetch, refuse a response that is not ok, put. *)
Definition cache_add (cache : string) (req : Request) : Async unit :=
  resp <- fetch req ;;
  if ok resp then cache_put cache req resp else throw BadResponse.

(** [cache.addAll(requests)]: all fetches are started; unless every one
    resolved with an ok response nothing is written; the writes are one
    storage operation. *)
Definition fetch_ok (req : Request) : Async (Request * Response) :=
  resp <- fetch req ;;
  if ok resp then ret (req, resp) else throw BadResponse.

Definition put_all (items : list (Request * Response)) (c : Cache) : Cache :=
  fold_left (fun acc e => put_entry (fst e) (snd e) acc) items c.

Definition cache_addAll (cache : string) (reqs : list Request) : Async unit :=
  items <- promise_all (map fetch_ok reqs) ;;
  store_op ;;
  modify (fun w => set_storage (update_store cache (put_all items) (storage w)) w).

(** [cache.delete(request)] *)
Definition cache_delete (cache : string) (req : Request) : Async bool :=
  store_op ;;
  found <- gets (fun w => match find_entry req (entries cache (storage w)) with
                          | Some _ => true | None => false end) ;;
  modify (fun w => set_storage (update_store cache (remove_entry req) (storage w)) w) ;;
  ret found.

(** [caches.keys()] *)
Definition caches_keys : Async (list string) :=
  store_op ;;
  gets (fun w => map fst (storage w)).

(** [caches.delete(name)] *)
Definition drop_store (name : string) (s : CacheStorage) : CacheStorage :=
  filter (fun nc => negb (String.eqb (fst nc) name)) s.

Definition caches_delete (name : string) : Async bool :=
  store_op ;;
  found <- gets (fun w => has_store name (storage w)) ;;
  modify (fun w => set_storage (drop_store name (storage w)) w) ;;
  ret found.

(** [caches.match(request)] *)
Definition caches_match (req : Request) : Async (option Response) :=
  store_op ;;
  gets (fun w => match_all req (storage w)).

End Platform.
Import Platform.

(* ================================================================= *)
(** ** service-worker.js *)

Definition CACHE_NAME : string := "calmstart-shell-v3".

Definition SHELL_ASSETS : list string :=
  [ "./";
    "./index.html";
    "./app.html";
    "./styles.css";
    "./app.js";
    "./manifest.webmanifest";
    "./privacy.html";
    "./sessions.json";
    "./assets/icon-192.png";
    "./assets/icon-512.png" ].

(** Where the worker script lives: its origin and its directory (with the
    closing slash).  The relative URLs handed to [cache.addAll] are resolved
    against it. *)
Record Location := mkLocation {
  loc_origin : string;
  loc_dir : string
}.

Definition resolve (self : Location) (rel : string) : Request :=
  mkRequest (loc_origin self)
            (loc_dir self ++ (if String.prefix "./" rel
                              then substring 2 (String.length rel - 2) rel
                              else rel))
            "".

(** The promise the install handler hands to [event.waitUntil]. *)
Definition on_install (self : Location) : Async unit :=
  cache <- caches_open CACHE_NAME ;;
  cache_addAll cache (map (resolve self) SHELL_ASSETS).

(** The promise the activate handler hands to [event.waitUntil]
    ([self.clients.claim()] touches no store). *)
Definition on_activate : Async unit :=
  keys <- caches_keys ;;
  promise_all
    (map (fun k =>
            if negb (String.eqb k CACHE_NAME) && negb (startsWith k "calmstart-audio")
            then (_ <- caches_delete k ;; ret tt)
            else ret tt)
         keys) ;;
  ret tt.

(** The three branches of the fetch handler. *)
Inductive Class := Shell | Audio | Default.

Definition classify (request : Request) : Class :=
  if array_includes SHELL_ASSETS (pathname request)
     || array_includes SHELL_ASSETS ("." ++ pathname request)
  then Shell
  else if includes (pathname request) "/audio/" then Audio
  else Default.

(** The promise the fetch handler hands to [event.respondWith]. *)
Definition on_fetch (request : Request) : Async Response :=
  (* Shell: cache-first *)
  if array_includes SHELL_ASSETS (pathname request)
     || array_includes SHELL_ASSETS ("." ++ pathname request)
  then
    resp <- caches_match request ;;
    match resp with
    | Some r => ret r
    | None => fetch request
    end
  (* Audio: cache-first *)
  else if includes (pathname request) "/audio/" then
    cache <- caches_open "calmstart-audio-v1" ;;
    cached <- cache_match cache request ;;
    match cached with
    | Some c => ret c
    | None =>
      resp <- fetch request ;;
      detached (cache_put cache request resp) ;;
      ret resp
    end
  (* Default: network-first fallback to cache *)
  else
    try_catch
      (resp <- fetch request ;;
       ret resp)
      (fun _ =>
         cached <- caches_match request ;;
         match cached with
         | Some c => ret c
         | None => ret Response_error
         end).

(** The worker life cycle around the two [waitUntil] promises: a rejected
    install promise discards the new worker and leaves the registration as
    it was; a resolved one makes the worker, which called [skipWaiting()],
    the active one at once and runs its activate handler.  Versions are
    numbered; [active] is the version that serves the pages. *)
Record Registration := mkRegistration {
  active : option nat
}.

Definition install_version (self : Location) (version : nat) (reg : Registration)
  : World -> Registration * World :=
  fun w => match on_install self w with
           | (Rejected _, w1) => (reg, w1)
           | (Resolved _, w1) =>
             let (_, w2) := on_activate w1 in
             (mkRegistration (Some version), w2)
           end.

(* ================================================================= *)
(** ** app.js: the cache facade *)

Definition set_errorToast (t : option string) (p : Page) : Page :=
  mkPage (sessions p) (current p) (categoryFilter p) (offlineToggle_checked p)
         (sessionList p) t.
Definition set_sessionList (l : list (string * bool)) (p : Page) : Page :=
  mkPage (sessions p) (current p) (categoryFilter p) (offlineToggle_checked p)
         l (errorToast p).
Definition set_checked (b : bool) (p : Page) : Page :=
  mkPage (sessions p) (current p) (categoryFilter p) b
         (sessionList p) (errorToast p).
Definition set_current (c : option Session) (p : Page) : Page :=
  mkPage (sessions p) c (categoryFilter p) (offlineToggle_checked p)
         (sessionList p) (errorToast p).

Definition showError (message : string) : Async unit :=
  modify (fun w => set_page (set_errorToast (Some message) (page w)) w).

Definition isSessionCached (fileUrl : Request) : Async bool :=
  try_catch
    (cache <- caches_open "calmstart-audio-v1" ;;
     response <- cache_match cache fileUrl ;;
     ret (match response with Some _ => true | None => false end))
    (fun _ =>
       console_error "Cache check error:" ;;
       ret false).

(** The [for (const s of filtered)] loop of [renderSessions]. *)
Fixpoint render_rows (filtered : list Session) : Async unit :=
  match filtered with
  | [] => ret tt
  | s :: rest =>
    isCached <- isSessionCached (file s) ;;
    modify (fun w => set_page
                       (set_sessionList (sessionList (page w) ++ [(id s, isCached)])
                                        (page w)) w) ;;
    render_rows rest
  end.

Definition renderSessions (filterCategory : string) : Async unit :=
  modify (fun w => set_page (set_sessionList [] (page w)) w) ;;
  filtered <- gets (fun w =>
                      if String.eqb filterCategory "all" then sessions (page w)
                      else filter (fun s => String.eqb (category s) filterCategory)
                                  (sessions (page w))) ;;
  render_rows filtered.

(** The [try] block of the offline toggle's change handler. *)
Definition update_offline (cur : Session) : Async unit :=
  cache <- caches_open "calmstart-audio-v1" ;;
  checked <- gets (fun w => offlineToggle_checked (page w)) ;;
  if checked then
    cache_add cache (file cur) ;;
    sel <- gets (fun w => categoryFilter (page w)) ;;
    renderSessions sel
  else
    _ <- cache_delete cache (file cur) ;;
    sel <- gets (fun w => categoryFilter (page w)) ;;
    renderSessions sel.

(** The change handler of [#offlineToggle]; the box already shows the new
    state when it runs. *)
Definition offlineToggle_change : Async unit :=
  cur <- gets (fun w => current (page w)) ;;
  match cur with
  | None => modify (fun w => set_page (set_checked false (page w)) w)
  | Some cur =>
    try_catch
      (update_offline cur)
      (fun _ =>
         showError "Failed to update offline status." ;;
         console_error "Cache error:")
  end.

(** The facade operations of the page: the session is the one playing and
    the user ticks, or unticks, the offline box. *)
Definition user_toggles (s : Session) (checked : bool) : Async unit :=
  modify (fun w => set_page (set_checked checked (set_current (Some s) (page w))) w).

Definition markOffline (s : Session) : Async unit :=
  user_toggles s true ;; offlineToggle_change.

Definition unmarkOffline (s : Session) : Async unit :=
  user_toggles s false ;; offlineToggle_change.

Definition isCached (fileUrl : Request) : Async bool := isSessionCached fileUrl.

(** The store names of the two stores, and what a run leaves in them. *)
Definition AudioStore : string := "calmstart-audio-v1".
Definition ShellStore : string := CACHE_NAME.

Definition run {A} (c : Async A) (w : World) : World := snd (c w).
Definition result {A} (c : Async A) (w : World) : Outcome A := fst (c w).

(* ================================================================= *)
(** ** Sample worlds *)

Definition site : string := "https://calmstart.example".
Definition rain : Request := mkRequest site "/audio/rain.mp3" "".
Definition rain_session : Session := mkSession "rain" "Rain" "sleep" rain.
Definition rain_audio : Response := mkResponse basic 200 "ID3-rain-bytes".
Definition not_found : Response := mkResponse basic 404 "Not Found".

Definition blank_page : Page := mkPage [rain_session] None "all" false [] None.

Definition offline : Request -> Transport := fun _ => Unreachable.
Definition serving (r : Response) : Request -> Transport := fun _ => Served r.

Definition world0 (s : CacheStorage) (n : Request -> Transport) (f : list bool) : World :=
  mkWorld s n f [] [] blank_page.

(* ================================================================= *)
(** ** app.js: the session playing and its offline box *)



(* ================================================================= *)
(** ** app.js: streak, minutes, sessions, history *)

(** Numbers are integers (counters, minutes, milliseconds since the epoch),
    on which the arithmetic of the handlers is exact.  A day is kept as its
    number since the epoch: [now.toISOString().slice(0, 10)] names the UTC
    day [now / MS_PER_DAY], and [new Date(day)] is that day's UTC midnight. *)
Module Stats.
Local Open Scope Z_scope.











End Stats.

(* ================================================================= *)
(** ** Vocabulary of the statements *)

(** Two storages hold the same entries under every store name (a store that
    does not exist holds none). *)
Definition same_entries (s s' : CacheStorage) : Prop :=
  forall name, entries name s' = entries name s.


(** Whether one of the coming [n] storage operations is rejected. *)
Definition faulty (n : nat) (f : list bool) : bool :=
  existsb (fun b => b) (firstn n f).

(** The change handler reports a failed update in the toast. *)
Definition update_failed (w : World) : Prop :=
  errorToast (page w) = Some "Failed to update offline status.".

(** A shell asset whose retrieval does not give an ok response. *)
Definition retrieval_fails (w : World) (a : Request) : Prop :=
  network w a = Unreachable \/ exists r, network w a = Served r /\ ok r = false.

(** What a render pass may change besides the rendered list, the console
    and the fault schedule: it may create the (empty) audio store. *)
Definition settled (w w' : World) : Prop :=
  network w' = network w /\
  fetched w' = fetched w /\
  errorToast (page w') = errorToast (page w) /\
  (storage w' = storage w \/ storage w' = with_store AudioStore (storage w)).

(** What the activate handler spares. *)
Definition spared (k : string) : bool :=
  String.eqb k ShellStore || startsWith k "calmstart-audio".

(** Whether the audio store of a storage holds an entry for a request. *)
Definition is_cached (k : Request) (s : CacheStorage) : bool :=
  match find_entry k (entries AudioStore s) with
  | Some _ => true
  | None => false
  end.

(** The sessions [renderSessions(filterCategory)] goes through. *)
Definition filtered_sessions (filterCategory : string) (w : World) : list Session :=
  if String.eqb filterCategory "all" then sessions (page w)
  else filter (fun s => String.eqb (category s) filterCategory) (sessions (page w)).



(* ================================================================= *)
(** ** Lists of entries and stores *)

Lemma Request_eqb_refl k : Request_eqb k k = true.
Proof.
  unfold Request_eqb. now rewrite !String.eqb_refl.
Qed.

Lemma Request_eqb_eq a b : Request_eqb a b = true <-> a = b.
Proof.
  split.
  - unfold Request_eqb. intros H.
    apply andb_prop in H as [H Hs]. apply andb_prop in H as [Ho Hp].
    apply String.eqb_eq in Ho, Hp, Hs.
    destruct a, b; simpl in *. congruence.
  - intros ->. apply Request_eqb_refl.
Qed.

Lemma find_entry_app k c d :
  find_entry k (c ++ d) =
  match find_entry k c with Some r => Some r | None => find_entry k d end.
Proof.
  induction c as [|[k' r'] c IH]; simpl; [reflexivity|].
  destruct (Request_eqb k' k); auto.
Qed.

Lemma find_entry_remove k c : find_entry k (remove_entry k c) = None.
Proof.
  induction c as [|[k' r'] c IH]; simpl; [reflexivity|].
  destruct (Request_eqb k' k) eqn:E; simpl; [assumption|].
  now rewrite E.
Qed.

Lemma find_entry_put_same k r c : find_entry k (put_entry k r c) = Some r.
Proof.
  unfold put_entry. rewrite find_entry_app, find_entry_remove. simpl.
  now rewrite Request_eqb_refl.
Qed.






Lemma filter_twice {A} (f g : A -> bool) l :
  filter f (filter g l) = filter (fun x => g x && f x) l.
Proof.
  induction l as [|x l IH]; simpl; [reflexivity|].
  destruct (g x); simpl; [|assumption].
  destruct (f x); now rewrite IH.
Qed.

Lemma lookup_store_app name s t :
  lookup_store name (s ++ t) =
  match lookup_store name s with Some c => Some c | None => lookup_store name t end.
Proof.
  induction s as [|[n c] s IH]; simpl; [reflexivity|].
  destruct (String.eqb n name); auto.
Qed.

Lemma has_store_with_store name s : has_store name (with_store name s) = true.
Proof.
  unfold with_store. destruct (has_store name s) eqn:E; [assumption|].
  unfold has_store in *. rewrite lookup_store_app.
  destruct (lookup_store name s); [discriminate|].
  simpl. now rewrite String.eqb_refl.
Qed.

Lemma with_store_has name s : has_store name s = true -> with_store name s = s.
Proof. unfold with_store. now intros ->. Qed.

Lemma same_entries_refl s : same_entries s s.
Proof. now intros n. Qed.

Lemma same_entries_with_store name s : same_entries s (with_store name s).
Proof.
  intros n. unfold with_store.
  destruct (has_store name s) eqn:E; [reflexivity|].
  unfold entries, has_store in *. rewrite lookup_store_app.
  destruct (lookup_store n s) eqn:L; [reflexivity|].
  simpl. destruct (String.eqb name n); reflexivity.
Qed.

Lemma lookup_update_same name f s :
  lookup_store name (update_store name f s) = option_map f (lookup_store name s).
Proof.
  induction s as [|[n c] s IH]; simpl; [reflexivity|].
  destruct (String.eqb n name) eqn:E; simpl; rewrite E; auto.
Qed.

Lemma lookup_update_other name m f s :
  String.eqb m name = false ->
  lookup_store name (update_store m f s) = lookup_store name s.
Proof.
  intros Hne. induction s as [|[n c] s IH]; simpl; [reflexivity|].
  destruct (String.eqb n m) eqn:E; simpl.
  - apply String.eqb_eq in E. subst n. now rewrite Hne.
  - destruct (String.eqb n name); auto.
Qed.

Lemma entries_update_same name f s :
  has_store name s = true ->
  entries name (update_store name f s) = f (entries name s).
Proof.
  unfold has_store, entries. rewrite lookup_update_same.
  destruct (lookup_store name s); simpl; [reflexivity|discriminate].
Qed.



Lemma has_store_update name m f s :
  has_store name (update_store m f s) = has_store name s.
Proof.
  unfold has_store. destruct (String.eqb m name) eqn:E.
  - apply String.eqb_eq in E. subst m. rewrite lookup_update_same.
    now destruct (lookup_store name s).
  - now rewrite lookup_update_other.
Qed.

(* ================================================================= *)
(** ** Running a handler *)

(** Unfolds the promise combinators and the browser interfaces on a world
    given by its fields; loops and list functions stay folded. *)
Ltac exec :=
  cbv beta iota zeta delta
    [result run fst snd
     ret throw bind try_catch detached gets modify console_error showError
     store_op fetch caches_open cache_match cache_put cache_add cache_delete
     caches_keys caches_delete caches_match
     set_storage set_network set_faults set_fetched set_console set_page
     set_errorToast set_sessionList set_checked set_current
     storage network faults fetched console page
     sessions current categoryFilter offlineToggle_checked sessionList errorToast].

Ltac exec_in H :=
  cbv beta iota zeta delta
    [result run fst snd
     ret throw bind try_catch detached gets modify console_error showError
     store_op fetch caches_open cache_match cache_put cache_add cache_delete
     caches_keys caches_delete caches_match
     set_storage set_network set_faults set_fetched set_console set_page
     set_errorToast set_sessionList set_checked set_current
     storage network faults fetched console page
     sessions current categoryFilter offlineToggle_checked sessionList errorToast] in H.

(** The branch of [on_fetch] that [classify] names. *)
Ltac branch H :=
  unfold classify in H; unfold on_fetch;
  match type of H with
  | context [array_includes ?a ?x || array_includes ?b ?y] =>
    destruct (array_includes a x || array_includes b y);
    try discriminate H
  end;
  match type of H with
  | context [includes ?x ?y] => destruct (includes x y); try discriminate H
  | _ => idtac
  end.

Lemma entries_with_store name n s : entries n (with_store name s) = entries n s.
Proof. apply same_entries_with_store. Qed.

(* ================================================================= *)
(** ** The fetch handler *)

(** C9.  A shell-class request changes no store, whatever the storage and
    the network do; when the lookup over all stores is not rejected, the
    response is the stored entry if there is one and the outcome of the
    network fetch otherwise. *)
Theorem shell_fetch_frame request w :
  classify request = Shell ->
  storage (run (on_fetch request) w) = storage w /\
  (faulty 1 (faults w) = false ->
   result (on_fetch request) w =
   match match_all request (storage w) with
   | Some r => Resolved r
   | None => match network w request with
             | Served r => Resolved r
             | Unreachable => Rejected FetchFailed
             end
   end).
Proof.
  intros H. destruct w as [s n f l c p]. branch H. exec.
  destruct f as [|[] f]; simpl;
    destruct (match_all request s); simpl;
    destruct (n request); simpl; split; try reflexivity; intros; discriminate.
Qed.

Lemma shell_fetch_frame_witness :
  classify (mkRequest site "/index.html" "") = Shell /\
  storage (run (on_fetch (mkRequest site "/index.html" ""))
               (world0 [(ShellStore, [])] (serving rain_audio) []))
  = [(ShellStore, [])] /\
  result (on_fetch (mkRequest site "/index.html" ""))
         (world0 [(ShellStore, [])] (serving rain_audio) [])
  = Resolved rain_audio.
Proof.
  split; [reflexivity|].
  destruct (shell_fetch_frame (mkRequest site "/index.html" "")
              (world0 [(ShellStore, [])] (serving rain_audio) []) eq_refl)
    as [Hframe Hresp].
  split; [exact Hframe | exact (Hresp eq_refl)].
Defined.

(** C2, as amended.  When no storage operation is rejected: a default-class
    request always ends in a response (the network's, else the stored one,
    else [Response.error()]); a shell- or audio-class request ends in a
    response when its lookup hits or the network fetch resolves, and in the
    rejection of the fetch otherwise. *)
Theorem on_fetch_outcome request w :
  faults w = [] ->
  result (on_fetch request) w =
  match classify request with
  | Default =>
    Resolved match network w request with
             | Served r => r
             | Unreachable => match match_all request (storage w) with
                              | Some c => c
                              | None => Response_error
                              end
             end
  | Shell =>
    match match_all request (storage w) with
    | Some c => Resolved c
    | None => match network w request with
              | Served r => Resolved r
              | Unreachable => Rejected FetchFailed
              end
    end
  | Audio =>
    match find_entry request (entries AudioStore (storage w)) with
    | Some c => Resolved c
    | None => match network w request with
              | Served r => Resolved r
              | Unreachable => Rejected FetchFailed
              end
    end
  end.
Proof.
  intros Hf. destruct w as [s n f l c p]. simpl in Hf. subst f.
  unfold classify, on_fetch.
  destruct (array_includes SHELL_ASSETS (pathname request)
            || array_includes SHELL_ASSETS ("." ++ pathname request)).
  - exec. destruct (match_all request s); [reflexivity|].
    destruct (n request); reflexivity.
  - destruct (includes (pathname request) "/audio/").
    + exec. unfold AudioStore. rewrite entries_with_store.
      destruct (find_entry request (entries "calmstart-audio-v1" s)); [reflexivity|].
      destruct (n request); reflexivity.
    + exec. destruct (n request); [|reflexivity].
      destruct (match_all request s); reflexivity.
Qed.

Lemma on_fetch_outcome_witness :
  result (on_fetch (mkRequest site "/api/refresh" "")) (world0 [] offline [])
  = Resolved Response_error.
Proof.
  apply (on_fetch_outcome (mkRequest site "/api/refresh" "") (world0 [] offline [])).
  reflexivity.
Defined.

(** C2 as stated does not hold: an audio request that misses the store
    while the network is unreachable ends in a rejection, and so does a
    default request whose fallback lookup is rejected. *)
Lemma on_fetch_rejections :
  result (on_fetch rain) (world0 [] offline []) = Rejected FetchFailed /\
  result (on_fetch (mkRequest site "/index.html" "")) (world0 [] offline [])
  = Rejected FetchFailed /\
  result (on_fetch (mkRequest site "/api/refresh" "")) (world0 [] offline [true])
  = Rejected StoreFault.
Proof. repeat split; reflexivity. Qed.






(** C1 fails on the fetch handler: with an empty audio store and a server
    that answers 404, the audio branch writes the 404 response into the
    audio store, and the next request is answered with it from the store. *)
Theorem audio_fetch_stores_error_status :
  let w := world0 [] (serving not_found) [] in
  let w1 := run (on_fetch rain) w in
  classify rain = Audio /\
  ok not_found = false /\
  entries AudioStore (storage w) = [] /\
  entries AudioStore (storage w1) = [(rain, not_found)] /\
  result (isCached rain) w1 = Resolved true /\
  result (on_fetch rain) (set_network (serving rain_audio) w1) = Resolved not_found.
Proof. repeat split; reflexivity. Qed.

(* ================================================================= *)
(** ** The membership check *)

(** C8.  [isCached] always resolves with a boolean: [false] when one of its
    two storage operations is rejected, and otherwise whether the audio
    store holds an entry for the key. *)
Theorem isCached_total fileUrl w :
  result (isCached fileUrl) w =
  Resolved (if faulty 2 (faults w) then false
            else match find_entry fileUrl (entries AudioStore (storage w)) with
                 | Some _ => true
                 | None => false
                 end).
Proof.
  destruct w as [s n f l c p].
  unfold isCached, isSessionCached, AudioStore. exec.
  destruct f as [|[] [|[] f]]; simpl; rewrite ?entries_with_store; reflexivity.
Qed.

(* ================================================================= *)
(** ** Activation *)

Lemma promise_all_run {A} (p : Async A) ps w :
  run (promise_all (p :: ps)) w = run (promise_all ps) (run p w).
Proof.
  unfold run. simpl. destruct (p w) as [r w1]. simpl.
  destruct (promise_all ps w1) as [rs w2]. reflexivity.
Qed.

Lemma lookup_drop_other name k s :
  String.eqb k name = false ->
  lookup_store name (drop_store k s) = lookup_store name s.
Proof.
  intros Hne. unfold drop_store.
  induction s as [|[n c] s IH]; simpl; [reflexivity|].
  destruct (String.eqb n k) eqn:E; simpl.
  - apply String.eqb_eq in E. subst n. now rewrite Hne.
  - destruct (String.eqb n name); auto.
Qed.

Lemma doomed_not_spared k :
  negb (String.eqb k CACHE_NAME) && negb (startsWith k "calmstart-audio")
  = negb (spared k).
Proof. unfold spared, ShellStore. now rewrite negb_orb. Qed.

(** The deletions of the activate handler never touch a spared store,
    rejected or not. *)
Lemma reap_spares name ks : spared name = true -> forall w,
  lookup_store name
    (storage (run (promise_all
       (map (fun k =>
               if negb (String.eqb k CACHE_NAME) && negb (startsWith k "calmstart-audio")
               then (_ <- caches_delete k ;; ret tt)
               else ret tt) ks)) w))
  = lookup_store name (storage w).
Proof.
  intros Hsp. induction ks as [|k ks IH]; intros w; [reflexivity|].
  simpl map. rewrite promise_all_run, IH. rewrite doomed_not_spared.
  destruct (spared k) eqn:Ek; simpl; [reflexivity|].
  assert (Hne : String.eqb k name = false).
  { destruct (String.eqb k name) eqn:E; [|reflexivity].
    apply String.eqb_eq in E. congruence. }
  destruct w as [s n f l c p]. exec.
  destruct f as [|[] f]; simpl; try reflexivity; now apply lookup_drop_other.
Qed.

Lemma run_bind {A B} (c : Async A) (k : A -> Async B) w :
  run (bind c k) w =
  match c w with
  | (Resolved a, w1) => run (k a) w1
  | (Rejected _, w1) => w1
  end.
Proof. unfold run, bind. destruct (c w) as [[a|e] w1]; reflexivity. Qed.

Lemma run_then_ret {A B} (c : Async A) (b : B) w : run (c ;; ret b) w = run c w.
Proof. rewrite run_bind. unfold run. destruct (c w) as [[a|e] w1]; reflexivity. Qed.

Lemma activate_spares name w :
  spared name = true ->
  lookup_store name (storage (run on_activate w)) = lookup_store name (storage w).
Proof.
  intros Hsp. unfold on_activate. rewrite run_bind.
  destruct w as [s n f l c p].
  destruct f as [|[] f];
    [ change (caches_keys (mkWorld s n [] l c p))
        with (Resolved (map fst s), mkWorld s n [] l c p)
    | change (caches_keys (mkWorld s n (true :: f) l c p))
        with (@Rejected (list string) StoreFault, mkWorld s n f l c p)
    | change (caches_keys (mkWorld s n (false :: f) l c p))
        with (Resolved (map fst s), mkWorld s n f l c p) ];
    cbv iota beta; try reflexivity;
    rewrite run_then_ret, reap_spares by assumption; reflexivity.
Qed.

Lemma reap_all ks : forall s n l c p,
  storage (run (promise_all
       (map (fun k =>
               if negb (String.eqb k CACHE_NAME) && negb (startsWith k "calmstart-audio")
               then (_ <- caches_delete k ;; ret tt)
               else ret tt) ks)) (mkWorld s n [] l c p))
  = filter (fun nc => negb (existsb (fun k => negb (spared k) && String.eqb (fst nc) k) ks)) s.
Proof.
  induction ks as [|k ks IH]; intros s n l c p.
  - simpl. induction s as [|x s IHs]; simpl; [reflexivity|]. now rewrite <- IHs.
  - simpl map. rewrite promise_all_run, doomed_not_spared.
    destruct (spared k) eqn:Ek; simpl negb; cbv iota.
    + change (run (ret tt) (mkWorld s n [] l c p)) with (mkWorld s n [] l c p).
      rewrite IH. apply filter_ext. intros nc. simpl. now rewrite Ek.
    + change (run (_ <- caches_delete k ;; ret tt) (mkWorld s n [] l c p))
        with (mkWorld (drop_store k s) n [] l c p).
      rewrite IH. unfold drop_store. rewrite filter_twice.
      apply filter_ext. intros nc. simpl. rewrite Ek. simpl.
      now rewrite negb_orb.
Qed.

Lemma reaped_iff_not_spared (s : CacheStorage) nc :
  In nc s ->
  negb (existsb (fun k => negb (spared k) && String.eqb (fst nc) k) (map fst s))
  = spared (fst nc).
Proof.
  intros Hin. destruct (spared (fst nc)) eqn:E.
  - apply negb_true_iff. apply not_true_iff_false. intros Hex.
    apply existsb_exists in Hex as (k & _ & Hk).
    apply andb_prop in Hk as [Hd He]. apply String.eqb_eq in He. subst k.
    rewrite E in Hd. discriminate.
  - apply negb_false_iff. apply existsb_exists. exists (fst nc). split.
    + now apply in_map.
    + now rewrite E, String.eqb_refl.
Qed.

(** C5.  With no storage operation rejected, the activate handler leaves
    exactly the stores whose name is the shell store's or starts with the
    audio prefix, contents untouched; a store of such a name, and so the
    audio store, survives every activation, rejected deletions included;
    of the stores shell v2, shell v3 and audio it deletes shell v2. *)
Theorem activate_reaps :
  (forall w, faults w = [] ->
     storage (run on_activate w) = filter (fun nc => spared (fst nc)) (storage w)) /\
  (forall w name, spared name = true ->
     lookup_store name (storage (run on_activate w)) = lookup_store name (storage w)) /\
  spared AudioStore = true /\
  (forall c2 c3 a n,
     storage (run on_activate
                (world0 [("calmstart-shell-v2", c2); ("calmstart-shell-v3", c3);
                         ("calmstart-audio-v1", a)] n []))
     = [("calmstart-shell-v3", c3); ("calmstart-audio-v1", a)]).
Proof.
  assert (H1 : forall w, faults w = [] ->
     storage (run on_activate w) = filter (fun nc => spared (fst nc)) (storage w)).
  { intros [s n f l c p] Hf. simpl in Hf. subst f. unfold on_activate.
    rewrite run_bind.
    change (caches_keys (mkWorld s n [] l c p))
      with (Resolved (map fst s), mkWorld s n [] l c p).
    cbv iota beta. rewrite run_then_ret, reap_all.
    apply filter_ext_in. intros nc Hin. now apply reaped_iff_not_spared. }
  split; [exact H1|].
  split; [intros w name Hsp; now apply activate_spares|].
  split; [reflexivity|].
  intros c2 c3 a n. rewrite H1 by reflexivity. reflexivity.
Qed.

Lemma activate_reaps_witness :
  storage (run on_activate
             (world0 [("calmstart-shell-v1", []); (AudioStore, [(rain, rain_audio)])]
                     offline []))
  = [(AudioStore, [(rain, rain_audio)])] /\
  lookup_store AudioStore
    (storage (run on_activate
                (world0 [("calmstart-shell-v1", []); (AudioStore, [(rain, rain_audio)])]
                        offline [false; true])))
  = Some [(rain, rain_audio)].
Proof.
  destruct activate_reaps as (Hexact & Hspared & Haudio & _).
  split.
  - exact (Hexact (world0 [("calmstart-shell-v1", []); (AudioStore, [(rain, rain_audio)])]
                          offline []) eq_refl).
  - exact (Hspared (world0 [("calmstart-shell-v1", []); (AudioStore, [(rain, rain_audio)])]
                           offline [false; true]) AudioStore eq_refl).
Defined.

(* ================================================================= *)
(** ** Installation *)

Lemma fetch_ok_eq a s n f l c p :
  fetch_ok a (mkWorld s n f l c p) =
  (match n a with
   | Unreachable => Rejected FetchFailed
   | Served r => if ok r then Resolved (a, r) else Rejected BadResponse
   end, mkWorld s n f (l ++ [a]) c p).
Proof.
  unfold fetch_ok. exec. destruct (n a) as [|r]; [reflexivity|].
  destruct (ok r); reflexivity.
Qed.

(** The batch of fetches of [cache.addAll] touches nothing but the log of
    network accesses; it resolves exactly when every request is served an
    ok response, with the responses in the order of the requests. *)
Lemma fetch_all_spec reqs : forall s n f l c p,
  exists o l',
    promise_all (map fetch_ok reqs) (mkWorld s n f l c p)
    = (o, mkWorld s n f l' c p) /\
    match o with
    | Rejected _ =>
      exists a, In a reqs /\
                (n a = Unreachable \/ exists r, n a = Served r /\ ok r = false)
    | Resolved items =>
      map fst items = reqs /\
      Forall (fun e => n (fst e) = Served (snd e) /\ ok (snd e) = true) items
    end.
Proof.
  induction reqs as [|a reqs IH]; intros s n f l c p.
  - exists (Resolved []), l. simpl. auto.
  - simpl map. cbn [promise_all]. rewrite fetch_ok_eq.
    destruct (IH s n f (l ++ [a]) c p) as (o & l' & Heq & Hspec).
    rewrite Heq. destruct (n a) as [|r] eqn:Ha.
    + exists (Rejected FetchFailed), l'. split; [reflexivity|].
      exists a. split; [now left | now left].
    + destruct (ok r) eqn:Hok.
      * destruct o as [items|e].
        -- exists (Resolved ((a, r) :: items)), l'. split; [reflexivity|].
           destruct Hspec as [Hm Hall]. split; [simpl; now rewrite Hm|].
           constructor; [now split | assumption].
        -- exists (Rejected e), l'. split; [reflexivity|].
           destruct Hspec as (b & Hin & Hb). exists b. split; [now right | assumption].
      * exists (Rejected BadResponse), l'. split; [reflexivity|].
        exists a. split; [now left | right; now exists r].
Qed.

Lemma find_entry_remove_other a k c :
  Request_eqb k a = false -> find_entry a (remove_entry k c) = find_entry a c.
Proof.
  intros Hne. induction c as [|[k' r'] c IH]; simpl; [reflexivity|].
  destruct (Request_eqb k' k) eqn:E; simpl.
  - apply Request_eqb_eq in E. subst k'. now rewrite Hne.
  - destruct (Request_eqb k' a); auto.
Qed.

Lemma find_entry_put_other a k r c :
  Request_eqb k a = false -> find_entry a (put_entry k r c) = find_entry a c.
Proof.
  intros Hne. unfold put_entry. rewrite find_entry_app, find_entry_remove_other by assumption.
  destruct (find_entry a c); [reflexivity|]. simpl. now rewrite Hne.
Qed.

(** After a batch write of responses that all come from the network [n],
    a request of the batch is stored with the response [n] serves for it. *)
Lemma find_entry_put_all (n : Request -> Transport) a ra items :
  n a = Served ra ->
  Forall (fun e => n (fst e) = Served (snd e) /\ ok (snd e) = true) items ->
  forall c,
    In a (map fst items) \/ find_entry a c = Some ra ->
    find_entry a (put_all items c) = Some ra.
Proof.
  intros Ha Hall. unfold put_all.
  induction Hall as [|[k r] items [Hk _] _ IH]; intros c Hc; simpl.
  - destruct Hc as [[]|Hc]. exact Hc.
  - simpl in Hk. apply IH.
    destruct (Request_eqb k a) eqn:E.
    + right. apply Request_eqb_eq in E. subst k.
      rewrite find_entry_put_same. congruence.
    + destruct Hc as [[Hc|Hc]|Hc].
      * simpl in Hc. subst k. now rewrite Request_eqb_refl in E.
      * now left.
      * right. now rewrite find_entry_put_other.
Qed.

(** The install promise on a world given by its fields. *)
Lemma on_install_spec self s n f l c p :
  exists o w',
    on_install self (mkWorld s n f l c p) = (o, w') /\
    match o with
    | Rejected _ => same_entries s (storage w')
    | Resolved _ =>
      exists items,
        map fst items = map (resolve self) SHELL_ASSETS /\
        Forall (fun e => n (fst e) = Served (snd e) /\ ok (snd e) = true) items /\
        storage w' = update_store CACHE_NAME (put_all items) (with_store CACHE_NAME s)
    end /\
    ((exists a, In a (map (resolve self) SHELL_ASSETS) /\
                (n a = Unreachable \/ exists r, n a = Served r /\ ok r = false)) ->
     exists e, o = Rejected e).
Proof.
  unfold on_install, cache_addAll.
  assert (Hrej : forall items,
             map fst items = map (resolve self) SHELL_ASSETS ->
             Forall (fun e => n (fst e) = Served (snd e) /\ ok (snd e) = true) items ->
             ~ (exists a, In a (map (resolve self) SHELL_ASSETS) /\
                  (n a = Unreachable \/ exists r, n a = Served r /\ ok r = false))).
  { intros items Hm Hall (a & Hin & Hbad). rewrite <- Hm in Hin.
    apply in_map_iff in Hin as ([k r] & Hk & Hin). simpl in Hk. subst k.
    rewrite Forall_forall in Hall. destruct (Hall _ Hin) as [Hs Hok]. simpl in *.
    destruct Hbad as [Hbad|(r' & Hbad & Hno)]; congruence. }
  destruct f as [|[] f]; exec.
  - destruct (fetch_all_spec (map (resolve self) SHELL_ASSETS)
                (with_store CACHE_NAME s) n [] l c p) as (o & l' & Heq & Hspec).
    rewrite Heq. destruct o as [items|e].
    + do 2 eexists. split; [reflexivity|]. destruct Hspec as [Hm Hall]. split.
      * exists items. auto.
      * intros Hbad. exfalso. exact (Hrej items Hm Hall Hbad).
    + do 2 eexists. split; [reflexivity|]. split.
      * apply same_entries_with_store.
      * intros _. now exists e.
  - do 2 eexists. split; [reflexivity|]. split.
    + apply same_entries_refl.
    + intros _. now exists StoreFault.
  - destruct (fetch_all_spec (map (resolve self) SHELL_ASSETS)
                (with_store CACHE_NAME s) n f l c p) as (o & l' & Heq & Hspec).
    rewrite Heq. destruct o as [items|e].
    + destruct f as [|[] f].
      * do 2 eexists. split; [reflexivity|]. destruct Hspec as [Hm Hall]. split.
        -- exists items. auto.
        -- intros Hbad. exfalso. exact (Hrej items Hm Hall Hbad).
      * do 2 eexists. split; [reflexivity|]. destruct Hspec as [Hm Hall]. split.
        -- apply same_entries_with_store.
        -- intros Hbad. exfalso. exact (Hrej items Hm Hall Hbad).
      * do 2 eexists. split; [reflexivity|]. destruct Hspec as [Hm Hall]. split.
        -- exists items. auto.
        -- intros Hbad. exfalso. exact (Hrej items Hm Hall Hbad).
    + do 2 eexists. split; [reflexivity|]. split.
      * apply same_entries_with_store.
      * intros _. now exists e.
Qed.

(** C6.  Installation is all or nothing.  When the retrieval of some shell
    asset fails, the install promise is rejected; whenever it is rejected,
    the registration keeps the worker it had and no store gains or loses
    an entry; when it resolves, the new version becomes the active one and
    the shell store holds, for every shell asset, the ok response the
    network served for it. *)
Theorem install_all_or_nothing self version reg w :
  let assets := map (resolve self) SHELL_ASSETS in
  let reg' := fst (install_version self version reg w) in
  let w' := snd (install_version self version reg w) in
  ((exists a, In a assets /\ retrieval_fails w a) ->
   exists e, result (on_install self) w = Rejected e) /\
  (forall e, result (on_install self) w = Rejected e ->
   reg' = reg /\ same_entries (storage w) (storage w')) /\
  (result (on_install self) w = Resolved tt ->
   reg' = mkRegistration (Some version) /\
   forall a, In a assets ->
     exists r, network w a = Served r /\ ok r = true /\
               find_entry a (entries ShellStore (storage w')) = Some r).
Proof.
  destruct w as [s n f l c p]. cbv zeta. unfold install_version, result, retrieval_fails.
  destruct (on_install_spec self s n f l c p) as (o & w1 & Heq & Hspec & Hbad).
  rewrite Heq. cbn [fst snd network storage]. split; [exact Hbad|]. split.
  - intros e He. subst o. cbn [fst snd]. split; [reflexivity | exact Hspec].
  - intros Ho. subst o. destruct Hspec as (items & Hm & Hall & Hst).
    destruct (on_activate w1) as [oa w2] eqn:Ea. cbn [fst snd].
    split; [reflexivity|]. intros a Hin.
    assert (Hw2 : w2 = run on_activate w1) by (unfold run; now rewrite Ea).
    assert (He : entries ShellStore (storage w2) = entries ShellStore (storage w1)).
    { unfold entries. rewrite Hw2, activate_spares; reflexivity. }
    rewrite He, Hst. unfold ShellStore.
    rewrite entries_update_same by apply has_store_with_store.
    rewrite <- Hm in Hin.
    assert (Hin' := Hin).
    apply in_map_iff in Hin' as ([k r] & Hk & Hkr). simpl in Hk. subst k.
    rewrite Forall_forall in Hall. destruct (Hall _ Hkr) as [Hs Hok]. simpl in Hs, Hok.
    exists r. split; [assumption|]. split; [assumption|].
    apply (find_entry_put_all n); [assumption | now apply Forall_forall | now left].
Qed.

Lemma install_all_or_nothing_witness :
  let down := fun a => if String.eqb (pathname a) "/app.js" then Unreachable
                       else Served rain_audio in
  let old := [("calmstart-shell-v2", [(mkRequest site "/" "", rain_audio)])] in
  (exists e, result (on_install (mkLocation site "/")) (world0 old down []) = Rejected e) /\
  fst (install_version (mkLocation site "/") 3 (mkRegistration (Some 2))
                       (world0 old down []))
  = mkRegistration (Some 2) /\
  fst (install_version (mkLocation site "/") 3 (mkRegistration (Some 2))
                       (world0 old (serving rain_audio) []))
  = mkRegistration (Some 3).
Proof.
  intros down old.
  destruct (install_all_or_nothing (mkLocation site "/") 3 (mkRegistration (Some 2))
              (world0 old down [])) as (Hbad & Hrej & _).
  destruct (install_all_or_nothing (mkLocation site "/") 3 (mkRegistration (Some 2))
              (world0 old (serving rain_audio) [])) as (_ & _ & Hok).
  split; [|split].
  - apply Hbad. exists (mkRequest site "/app.js" "").
    split; [vm_compute; tauto | left; reflexivity].
  - exact (proj1 (Hrej FetchFailed eq_refl)).
  - exact (proj1 (Hok eq_refl)).
Defined.

(* ================================================================= *)
(** ** The offline toggle *)

Lemma with_store_idem name s : with_store name (with_store name s) = with_store name s.
Proof. apply with_store_has, has_store_with_store. Qed.

Lemma settled_refl w : settled w w.
Proof. unfold settled. auto. Qed.

Lemma settled_trans w1 w2 w3 : settled w1 w2 -> settled w2 w3 -> settled w1 w3.
Proof.
  intros (Hn & Hf & Ht & Hs) (Hn' & Hf' & Ht' & Hs').
  unfold settled. rewrite Hn', Hf', Ht'. repeat split; try assumption.
  destruct Hs as [Hs|Hs], Hs' as [Hs'|Hs']; rewrite Hs', Hs; auto.
  right. apply with_store_idem.
Qed.

Lemma isSessionCached_settled fileUrl w :
  exists b w', isSessionCached fileUrl w = (Resolved b, w') /\ settled w w'.
Proof.
  destruct w as [s n f l c p]. unfold isSessionCached, settled, AudioStore. exec.
  destruct f as [|[] [|[] f]]; do 2 eexists; (split; [reflexivity|]); simpl; auto.
Qed.

Lemma render_rows_settled rows : forall w,
  exists w', render_rows rows w = (Resolved tt, w') /\ settled w w'.
Proof.
  induction rows as [|r rows IH]; intros w.
  - exists w. split; [reflexivity | apply settled_refl].
  - cbn [render_rows]. unfold bind at 1.
    destruct (isSessionCached_settled (file r) w) as (b & w1 & Heq & Hs1).
    rewrite Heq. unfold bind at 1, modify at 1.
    match goal with |- context [render_rows rows ?w2] =>
      destruct (IH w2) as (w3 & Heq3 & Hs3); exists w3; split; [exact Heq3|];
      apply (settled_trans w w1 w3); [exact Hs1|];
      apply (settled_trans w1 w2 w3); [|exact Hs3]
    end.
    destruct w1 as [s n f l c p]. unfold settled. simpl. auto.
Qed.

Lemma renderSessions_settled sel w :
  exists w', renderSessions sel w = (Resolved tt, w') /\ settled w w'.
Proof.
  unfold renderSessions, bind, modify, gets.
  match goal with |- context [render_rows ?rows ?w2] =>
    destruct (render_rows_settled rows w2) as (w3 & Heq3 & Hs3); exists w3;
    split; [exact Heq3|]; apply (settled_trans w w2 w3); [|exact Hs3]
  end.
  destruct w as [s n f l c p]. unfold settled. simpl. auto.
Qed.

(** The [try] block of the change handler with the box ticked: it is
    rejected with the entries of every store as they were, or it resolves
    after writing the ok response the network served. *)
Lemma update_offline_add cur w :
  offlineToggle_checked (page w) = true ->
  exists o w',
    update_offline cur w = (o, w') /\
    network w' = network w /\
    errorToast (page w') = errorToast (page w) /\
    match o with
    | Rejected _ => same_entries (storage w) (storage w')
    | Resolved _ =>
      exists r, network w (file cur) = Served r /\ ok r = true /\
                storage w' = update_store AudioStore (put_entry (file cur) r)
                                          (with_store AudioStore (storage w))
    end.
Proof.
  destruct w as [s n f l c p]. destruct p as [ss cur0 sel chk rows toast].
  simpl. intros Hchk. subst chk. set (p := mkPage ss cur0 sel true rows toast).
  unfold update_offline, AudioStore.
  assert (Hrender : forall s1 f1 l1,
    has_store "calmstart-audio-v1" s1 = true ->
    exists w',
      renderSessions (categoryFilter p) (mkWorld s1 n f1 l1 c p) = (Resolved tt, w') /\
      network w' = n /\ errorToast (page w') = errorToast p /\ storage w' = s1).
  { intros s1 f1 l1 Hhas.
    destruct (renderSessions_settled (categoryFilter p) (mkWorld s1 n f1 l1 c p))
      as (w' & Heq & Hn & _ & Ht & Hs).
    exists w'. simpl in *. repeat split; try assumption.
    unfold AudioStore in Hs. rewrite with_store_has in Hs by assumption. tauto. }
  assert (Hhas : forall r, has_store "calmstart-audio-v1"
             (update_store "calmstart-audio-v1" (put_entry (file cur) r)
                           (with_store "calmstart-audio-v1" s)) = true).
  { intros r. rewrite has_store_update. apply has_store_with_store. }
  subst p. exec.
  destruct f as [|[] f]; cbv iota beta.
  - destruct (n (file cur)) as [|r] eqn:Hnet.
    + do 2 eexists. split; [reflexivity|]. simpl.
      repeat split; auto; try apply same_entries_with_store.
    + destruct (ok r) eqn:Hok.
      * destruct (Hrender _ [] (l ++ [file cur]) (Hhas r)) as (w' & Heq & Hn & Ht & Hs).
        exec_in Heq. exec. rewrite Heq. do 2 eexists. split; [reflexivity|].
        repeat split; try assumption. exists r. auto.
      * do 2 eexists. split; [reflexivity|]. simpl.
        repeat split; auto; try apply same_entries_with_store.
  - do 2 eexists. split; [reflexivity|]. simpl.
    repeat split; auto; try apply same_entries_refl.
  - destruct (n (file cur)) as [|r] eqn:Hnet.
    + do 2 eexists. split; [reflexivity|]. simpl.
      repeat split; auto; try apply same_entries_with_store.
    + destruct (ok r) eqn:Hok.
      * destruct f as [|[] f]; cbv iota beta.
        -- destruct (Hrender _ [] (l ++ [file cur]) (Hhas r))
             as (w' & Heq & Hn & Ht & Hs).
           exec_in Heq. exec. rewrite Heq. do 2 eexists. split; [reflexivity|].
           repeat split; try assumption. exists r. auto.
        -- do 2 eexists. split; [reflexivity|]. simpl.
           repeat split; auto; try apply same_entries_with_store.
        -- destruct (Hrender _ f (l ++ [file cur]) (Hhas r))
             as (w' & Heq & Hn & Ht & Hs).
           exec_in Heq. exec. rewrite Heq. do 2 eexists. split; [reflexivity|].
           repeat split; try assumption. exists r. auto.
      * do 2 eexists. split; [reflexivity|]. simpl.
        repeat split; auto; try apply same_entries_with_store.
Qed.

Lemma markOffline_unfold cur w :
  markOffline cur w =
  try_catch (update_offline cur)
            (fun _ => showError "Failed to update offline status." ;;
                      console_error "Cache error:")
            (set_page (set_checked true (set_current (Some cur) (page w))) w).
Proof. reflexivity. Qed.

(** One tick of the offline box, on a page whose toast is hidden: the
    handler returns; either it reports the failure and every store has the
    entries it had, or it reports nothing and the audio store has the ok
    response the network served written under the session's file. *)
Lemma markOffline_spec cur w :
  errorToast (page w) = None ->
  exists w',
    markOffline cur w = (Resolved tt, w') /\
    network w' = network w /\
    ((update_failed w' /\ same_entries (storage w) (storage w')) \/
     (errorToast (page w') = None /\
      exists r, network w (file cur) = Served r /\ ok r = true /\
                storage w' = update_store AudioStore (put_entry (file cur) r)
                                          (with_store AudioStore (storage w)))).
Proof.
  intros Htoast. rewrite markOffline_unfold.
  set (wp := set_page (set_checked true (set_current (Some cur) (page w))) w).
  destruct (update_offline_add cur wp eq_refl) as (o & w1 & Heq & Hn & Ht & Hspec).
  unfold try_catch. rewrite Heq.
  change (network wp) with (network w) in *.
  change (storage wp) with (storage w) in *.
  change (errorToast (page wp)) with (errorToast (page w)) in Ht.
  destruct o as [[]|e].
  - exists w1. split; [reflexivity|]. split; [assumption|]. right.
    split; [congruence | exact Hspec].
  - destruct w1 as [s1 n1 f1 l1 c1 p1]. exec.
    eexists. split; [reflexivity|]. split; [exact Hn|]. left.
    split; [reflexivity | exact Hspec].
Qed.





(* ================================================================= *)
(** ** More on the fetch handler *)

Lemma lookup_store_entries name s t :
  lookup_store name s = lookup_store name t -> entries name s = entries name t.
Proof. unfold entries. now intros ->. Qed.

Lemma entries_update_other name m f s :
  String.eqb m name = false -> entries name (update_store m f s) = entries name s.
Proof. intros H. apply lookup_store_entries. now apply lookup_update_other. Qed.

Lemma Request_eqb_neq a b : a <> b -> Request_eqb a b = false.
Proof.
  intros H. destruct (Request_eqb a b) eqn:E; [|reflexivity].
  apply Request_eqb_eq in E. contradiction.
Qed.

Lemma String_eqb_neq a b : a <> b -> String.eqb a b = false.
Proof.
  intros H. destruct (String.eqb a b) eqn:E; [|reflexivity].
  apply String.eqb_eq in E. contradiction.
Qed.

(** A put under [req] in the store [m] is not seen by a lookup of another
    request or in another store. *)
Lemma find_entry_after_put name k m req r s :
  name <> m \/ k <> req ->
  find_entry k (entries name (update_store m (put_entry req r) s))
  = find_entry k (entries name s).
Proof.
  intros H. destruct (String.eqb m name) eqn:E.
  - apply String.eqb_eq in E. subst m.
    destruct H as [H|H]; [contradiction|].
    destruct (has_store name s) eqn:Hs.
    + rewrite entries_update_same by assumption.
      apply find_entry_put_other, Request_eqb_neq. congruence.
    + unfold entries, has_store in *. rewrite lookup_update_same.
      destruct (lookup_store name s); [discriminate | reflexivity].
  - now rewrite entries_update_other.
Qed.

(** X1.  A default-class request leaves the storage as it is and goes to
    the network exactly once, whatever the network and the storage do;
    when the network serves a response, that response is the answer, a
    stored entry for the request is not consulted and no storage operation
    takes place. *)
Theorem default_fetch_network_first request w :
  classify request = Default ->
  storage (run (on_fetch request) w) = storage w /\
  fetched (run (on_fetch request) w) = fetched w ++ [request] /\
  (forall r, network w request = Served r ->
             result (on_fetch request) w = Resolved r /\
             faults (run (on_fetch request) w) = faults w).
Proof.
  intros H. destruct w as [s n f l c p]. branch H. exec.
  destruct (n request) as [|r0] eqn:Hn.
  - destruct f as [|[] f]; simpl; destruct (match_all request s);
      (split; [reflexivity|]); (split; [reflexivity|]);
      intros r' Hr; discriminate.
  - simpl. split; [reflexivity|]. split; [reflexivity|].
    intros r Hr. split; [congruence | reflexivity].
Qed.

Lemma default_fetch_network_first_witness :
  let stale := mkResponse basic 200 "old" in
  let api := mkRequest site "/api/tips" "" in
  result (on_fetch api)
         (world0 [("calmstart-shell-v3", [(api, stale)])] (serving rain_audio) [true])
  = Resolved rain_audio.
Proof.
  intros stale api.
  destruct (default_fetch_network_first api
              (world0 [("calmstart-shell-v3", [(api, stale)])] (serving rain_audio) [true])
              eq_refl) as (_ & _ & H).
  exact (proj1 (H rain_audio eq_refl)).
Defined.

(** X2.  An audio-class request touches one entry at most: a lookup of any
    other request, or in any other store, gives after the request what it
    gave before, and the network is asked at most once, whatever the
    network and the storage do. *)
Theorem audio_fetch_frame request w :
  classify request = Audio ->
  (forall name k,
      name <> AudioStore \/ k <> request ->
      find_entry k (entries name (storage (run (on_fetch request) w)))
      = find_entry k (entries name (storage w))) /\
  (fetched (run (on_fetch request) w) = fetched w \/
   fetched (run (on_fetch request) w) = fetched w ++ [request]).
Proof.
  intros H. destruct w as [s n f l c p]. branch H. unfold AudioStore. exec.
  destruct f as [|[] [|[] [|[] f]]]; simpl;
    try (split; [reflexivity | now left]);
    destruct (find_entry request (entries "calmstart-audio-v1" (with_store "calmstart-audio-v1" s)));
    simpl; try destruct (n request); simpl;
    (split; [intros name k Hk; rewrite ?find_entry_after_put by assumption;
             now rewrite ?entries_with_store
            | auto]).
Qed.

Lemma audio_fetch_frame_witness :
  let thunder := mkRequest site "/audio/thunder.mp3" "" in
  find_entry thunder
    (entries AudioStore
       (storage (run (on_fetch rain)
                     (world0 [(AudioStore, [(thunder, rain_audio)])] (serving not_found) []))))
  = Some rain_audio.
Proof.
  intros thunder.
  destruct (audio_fetch_frame rain
              (world0 [(AudioStore, [(thunder, rain_audio)])] (serving not_found) [])
              eq_refl) as [H _].
  apply (H AudioStore thunder). right. discriminate.
Defined.

(** X3.  The copy handed to the caller does not depend on the write-through:
    when an audio request misses the store and the fetch resolves, the
    caller receives the response even if the unawaited [cache.put] is
    rejected; in that case every store keeps its entries and the rejection
    ends in the console. *)
Theorem audio_put_rejected request r w :
  classify request = Audio ->
  find_entry request (entries AudioStore (storage w)) = None ->
  network w request = Served r ->
  faulty 2 (faults w) = false ->
  result (on_fetch request) w = Resolved r /\
  (nth 2 (faults w) false = true ->
   same_entries (storage w) (storage (run (on_fetch request) w)) /\
   console (run (on_fetch request) w) = console w ++ ["Uncaught (in promise)"]).
Proof.
  intros H Hmiss Hnet Hf. destruct w as [s n f l c p].
  simpl in Hmiss, Hnet, Hf. branch H. unfold AudioStore in *. exec.
  destruct f as [|[] [|[] [|[] f]]]; simpl in Hf; try discriminate Hf; simpl;
    rewrite ?entries_with_store, Hmiss, Hnet; simpl;
    (split; [reflexivity|]); intros Hthird; try discriminate Hthird.
  split; [apply same_entries_with_store | reflexivity].
Qed.

Lemma audio_put_rejected_witness :
  let w := world0 [] (serving rain_audio) [false; false; true] in
  result (on_fetch rain) w = Resolved rain_audio /\
  same_entries (storage w) (storage (run (on_fetch rain) w)).
Proof.
  intros w.
  destruct (audio_put_rejected rain rain_audio w eq_refl eq_refl eq_refl eq_refl)
    as [Hres Hput].
  split; [exact Hres | exact (proj1 (Hput eq_refl))].
Defined.

Lemma isSessionCached_result fileUrl w :
  fst (isSessionCached fileUrl w)
  = Resolved (if faulty 2 (faults w) then false else is_cached fileUrl (storage w)).
Proof.
  destruct w as [s n f l c p]. unfold isSessionCached, is_cached, AudioStore. exec.
  destruct f as [|[] [|[] f]]; simpl; rewrite ?entries_with_store; reflexivity.
Qed.

Lemma isSessionCached_no_fetch fileUrl w :
  fetched (snd (isSessionCached fileUrl w)) = fetched w.
Proof.
  destruct (isSessionCached_settled fileUrl w) as (b & w' & Heq & _ & Hf & _).
  now rewrite Heq.
Qed.



(** X5.  The first two tests of the fetch handler never compete: a path
    that is on the shell list, with or without the leading dot, does not
    contain the audio marker, so a request is handled by the audio branch
    exactly when its path contains [/audio/]. *)
Theorem classify_audio_iff request :
  classify request = Audio <-> includes (pathname request) "/audio/" = true.
Proof.
  unfold classify.
  destruct (array_includes SHELL_ASSETS (pathname request)
            || array_includes SHELL_ASSETS ("." ++ pathname request)) eqn:Hshell.
  - split; [discriminate|]. intros Haudio. exfalso.
    apply orb_prop in Hshell. unfold array_includes in Hshell.
    destruct Hshell as [Hs|Hs];
      apply existsb_exists in Hs as (a & Hin & Ha);
      apply String.eqb_eq in Ha; simpl in Hin;
      repeat (destruct Hin as [Hin|Hin];
              [ subst a; try (injection Ha as Ha); rewrite Ha in Haudio;
                discriminate Haudio |]);
      contradiction.
  - destruct (includes (pathname request) "/audio/"); split; congruence.
Qed.

(* ================================================================= *)
(** ** More on installation and activation *)

Lemma match_all_of_entry a name r s :
  find_entry a (entries name s) = Some r -> exists c, match_all a s = Some c.
Proof.
  unfold entries. induction s as [|[n c] s IH]; simpl; [discriminate|].
  destruct (String.eqb n name).
  - intros ->. now exists r.
  - intros H. destruct (find_entry a c) as [r'|]; [now exists r' | auto].
Qed.

(** With the worker at the root of the origin, every shell asset request
    is one the fetch handler takes for a shell request. *)
Lemma root_assets_shell o a :
  In a (map (resolve (mkLocation o "/")) SHELL_ASSETS) -> classify a = Shell.
Proof.
  simpl. intros H.
  repeat (destruct H as [H|H]; [subst a; reflexivity|]). contradiction.
Qed.

(** A resolved install promise leaves every shell asset in the shell store
    of the activated worker. *)
Lemma installed_assets_stored self version reg w a :
  result (on_install self) w = Resolved tt ->
  In a (map (resolve self) SHELL_ASSETS) ->
  exists r,
    find_entry a (entries ShellStore (storage (snd (install_version self version reg w))))
    = Some r.
Proof.
  destruct w as [s n f l c p]. unfold install_version, result.
  destruct (on_install_spec self s n f l c p) as (o & w1 & Heq & Hspec & _).
  rewrite Heq. cbn [fst]. intros Ho Hin. subst o.
  destruct Hspec as (items & Hm & Hall & Hst).
  destruct (on_activate w1) as [oa w2] eqn:Ea. cbn [snd].
  assert (Hw2 : w2 = run on_activate w1) by (unfold run; now rewrite Ea).
  rewrite (lookup_store_entries ShellStore (storage w2) (storage w1))
    by (rewrite Hw2; now apply activate_spares).
  rewrite Hst. unfold ShellStore.
  rewrite entries_update_same by apply has_store_with_store.
  rewrite <- Hm in Hin. assert (Hin' := Hin).
  apply in_map_iff in Hin' as ([k r] & Hk & Hkr). simpl in Hk. subst k.
  rewrite Forall_forall in Hall. destruct (Hall _ Hkr) as [Hs _]. simpl in Hs.
  exists r. apply (find_entry_put_all n); [assumption | now apply Forall_forall | now left].
Qed.

(** X6.  Offline shell.  With the worker at the root of its origin, once
    the install promise has resolved, a request for any shell asset is
    answered from the storage without going to the network, whatever the
    network has become (no storage operation rejected). *)
Theorem installed_shell_served_offline o version reg w a n :
  let self := mkLocation o "/" in
  let w1 := set_network n (set_faults [] (snd (install_version self version reg w))) in
  result (on_install self) w = Resolved tt ->
  In a (map (resolve self) SHELL_ASSETS) ->
  (exists c, result (on_fetch a) w1 = Resolved c /\ match_all a (storage w1) = Some c) /\
  fetched (run (on_fetch a) w1) = fetched w1.
Proof.
  cbv zeta. intros Hinst Hin.
  destruct (installed_assets_stored _ version reg w a Hinst Hin) as (r & Hr).
  pose proof (root_assets_shell o a Hin) as Hshell.
  destruct (snd (install_version (mkLocation o "/") version reg w))
    as [s1 n1 f1 l1 c1 p1].
  simpl in Hr. destruct (match_all_of_entry a ShellStore r s1 Hr) as (c & Hc).
  branch Hshell. exec. rewrite Hc. simpl. split; [|reflexivity].
  exists c. now split.
Qed.

Lemma installed_shell_served_offline_witness :
  let w := world0 [] (serving rain_audio) [] in
  let w1 := set_network offline
              (set_faults [] (snd (install_version (mkLocation site "/") 3
                                                   (mkRegistration None) w))) in
  exists c, result (on_fetch (mkRequest site "/styles.css" "")) w1 = Resolved c /\
            match_all (mkRequest site "/styles.css" "") (storage w1) = Some c.
Proof.
  intros w w1.
  refine (proj1 (installed_shell_served_offline site 3 (mkRegistration None) w
                   (mkRequest site "/styles.css" "") offline eq_refl _)).
  vm_compute. tauto.
Defined.

(** The deletions of the activate handler, on any schedule of rejections. *)
Lemma reap_frame ks : forall w,
  let w' := run (promise_all
       (map (fun k =>
               if negb (String.eqb k CACHE_NAME) && negb (startsWith k "calmstart-audio")
               then (_ <- caches_delete k ;; ret tt)
               else ret tt) ks)) w in
  incl (storage w') (storage w) /\ network w' = network w /\ fetched w' = fetched w.
Proof.
  induction ks as [|k ks IH]; intros w; cbv zeta.
  - split; [apply incl_refl | split; reflexivity].
  - simpl map. rewrite promise_all_run.
    match goal with |- context [run (promise_all ?ps) ?w1] =>
      destruct (IH w1) as (Hi & Hn & Hf); fold w1 in Hi, Hn, Hf
    end.
    cbv zeta in Hi, Hn, Hf. rewrite Hn, Hf.
    assert (Hstep : forall (c : Async unit),
               c = (if negb (String.eqb k CACHE_NAME) && negb (startsWith k "calmstart-audio")
                    then (_ <- caches_delete k ;; ret tt) else ret tt) ->
               incl (storage (run c w)) (storage w) /\
               network (run c w) = network w /\ fetched (run c w) = fetched w).
    { intros c0 ->. destruct w as [s n f l c p].
      destruct (negb (String.eqb k CACHE_NAME) && negb (startsWith k "calmstart-audio")).
      - exec. destruct f as [|[] f]; simpl;
          (split; [|split; reflexivity]);
          try apply incl_refl; unfold drop_store; apply incl_filter.
      - exec. split; [apply incl_refl | split; reflexivity]. }
    destruct (Hstep _ eq_refl) as (Hi1 & Hn1 & Hf1).
    split; [|split; assumption].
    eapply incl_tran; eassumption.
Qed.

Lemma activate_filter s n l c p :
  run on_activate (mkWorld s n [] l c p)
  = mkWorld (filter (fun nc => spared (fst nc)) s) n [] l c p.
Proof.
  unfold on_activate. rewrite run_bind.
  change (caches_keys (mkWorld s n [] l c p))
    with (Resolved (map fst s), mkWorld s n [] l c p).
  cbv iota beta. rewrite run_then_ret.
  assert (Hw : forall ks s0,
    run (promise_all
       (map (fun k =>
               if negb (String.eqb k CACHE_NAME) && negb (startsWith k "calmstart-audio")
               then (_ <- caches_delete k ;; ret tt)
               else ret tt) ks)) (mkWorld s0 n [] l c p)
    = mkWorld (storage (run (promise_all
       (map (fun k =>
               if negb (String.eqb k CACHE_NAME) && negb (startsWith k "calmstart-audio")
               then (_ <- caches_delete k ;; ret tt)
               else ret tt) ks)) (mkWorld s0 n [] l c p))) n [] l c p).
  { induction ks as [|k ks IH]; intros s0; [reflexivity|].
    simpl map. rewrite promise_all_run.
    destruct (negb (String.eqb k CACHE_NAME) && negb (startsWith k "calmstart-audio")).
    - change (run (_ <- caches_delete k ;; ret tt) (mkWorld s0 n [] l c p))
        with (mkWorld (drop_store k s0) n [] l c p). apply IH.
    - change (run (ret tt) (mkWorld s0 n [] l c p)) with (mkWorld s0 n [] l c p).
      apply IH. }
  rewrite Hw, reap_all. f_equal.
  apply filter_ext_in. intros nc Hin. now apply reaped_iff_not_spared.
Qed.

(** X7.  Activation only ever deletes: every store it leaves was there
    before with the same content, and it does not go to the network,
    whatever the storage operations do; with none rejected, activating a
    second time changes nothing. *)
Theorem activate_only_deletes w :
  incl (storage (run on_activate w)) (storage w) /\
  fetched (run on_activate w) = fetched w /\
  (faults w = [] -> run on_activate (run on_activate w) = run on_activate w).
Proof.
  split; [|split].
  - unfold on_activate. rewrite run_bind. destruct w as [s n f l c p].
    destruct f as [|[] f];
      [ change (caches_keys (mkWorld s n [] l c p))
          with (Resolved (map fst s), mkWorld s n [] l c p)
      | change (caches_keys (mkWorld s n (true :: f) l c p))
          with (@Rejected (list string) StoreFault, mkWorld s n f l c p)
      | change (caches_keys (mkWorld s n (false :: f) l c p))
          with (Resolved (map fst s), mkWorld s n f l c p) ];
      cbv iota beta; try apply incl_refl;
      rewrite run_then_ret; exact (proj1 (reap_frame _ _)).
  - unfold on_activate. rewrite run_bind. destruct w as [s n f l c p].
    destruct f as [|[] f];
      [ change (caches_keys (mkWorld s n [] l c p))
          with (Resolved (map fst s), mkWorld s n [] l c p)
      | change (caches_keys (mkWorld s n (true :: f) l c p))
          with (@Rejected (list string) StoreFault, mkWorld s n f l c p)
      | change (caches_keys (mkWorld s n (false :: f) l c p))
          with (Resolved (map fst s), mkWorld s n f l c p) ];
      cbv iota beta; try reflexivity;
      rewrite run_then_ret; exact (proj2 (proj2 (reap_frame _ _))).
  - destruct w as [s n f l c p]. simpl. intros ->.
    rewrite !activate_filter. f_equal. rewrite filter_twice.
    apply filter_ext. intros nc. apply andb_diag.
Qed.

Lemma activate_only_deletes_witness :
  let w := world0 [("calmstart-shell-v2", []); (AudioStore, [(rain, rain_audio)])]
                  offline [] in
  run on_activate (run on_activate w) = run on_activate w.
Proof.
  intros w. exact (proj2 (proj2 (activate_only_deletes w)) eq_refl).
Defined.

(* ================================================================= *)
(** ** More on the cache facade *)

Lemma is_cached_with_store k s : is_cached k (with_store AudioStore s) = is_cached k s.
Proof. unfold is_cached. now rewrite entries_with_store. Qed.


(** The membership check in full: its answer, and what it leaves. *)
Lemma isSessionCached_step fileUrl w :
  exists w',
    isSessionCached fileUrl w
    = (Resolved (if faulty 2 (faults w) then false else is_cached fileUrl (storage w)), w') /\
    settled w w' /\ page w' = page w /\ (faults w = [] -> faults w' = []).
Proof.
  destruct w as [s n f l c p]. unfold isSessionCached, is_cached, settled, AudioStore. exec.
  destruct f as [|[] [|[] f]]; simpl; rewrite ?entries_with_store;
    eexists; (split; [reflexivity|]); simpl;
    repeat split; auto; intros; discriminate.
Qed.

Lemma settled_is_cached k w w' :
  settled w w' -> is_cached k (storage w') = is_cached k (storage w).
Proof.
  intros (_ & _ & _ & [Hs|Hs]); rewrite Hs; [reflexivity | apply is_cached_with_store].
Qed.

(** The rows a render loop appends: one per session, in order; a badge is
    set only for a cached file, and for every cached file when no storage
    operation is rejected. *)
Lemma render_rows_rows rows : forall w,
  exists bs w',
    render_rows rows w = (Resolved tt, w') /\
    settled w w' /\
    sessionList (page w') = sessionList (page w) ++ combine (map id rows) bs /\
    sessions (page w') = sessions (page w) /\
    current (page w') = current (page w) /\
    offlineToggle_checked (page w') = offlineToggle_checked (page w) /\
    Forall2 (fun s b => b = true -> is_cached (file s) (storage w) = true) rows bs /\
    (faults w = [] ->
     bs = map (fun s => is_cached (file s) (storage w)) rows /\ faults w' = []).
Proof.
  induction rows as [|r rows IH]; intros w.
  - exists [], w. simpl. rewrite app_nil_r.
    repeat split; auto using settled_refl.
  - cbn [render_rows]. unfold bind at 1.
    destruct (isSessionCached_step (file r) w) as (w1 & Heq & Hs1 & Hp1 & Hf1).
    rewrite Heq. unfold bind at 1, modify at 1.
    set (b := if faulty 2 (faults w) then false else is_cached (file r) (storage w)).
    set (w2 := set_page (set_sessionList (sessionList (page w1) ++ [(id r, b)]) (page w1)) w1).
    destruct (IH w2) as (bs & w3 & Heq3 & Hs3 & Hl3 & Hss3 & Hc3 & Hk3 & Hall3 & Hf3).
    exists (b :: bs), w3. rewrite Heq3.
    assert (Hs2 : settled w1 w2).
    { destruct w1 as [s1 n1 f1 l1 c1 p1]. unfold settled. simpl. auto. }
    assert (Hst2 : storage w2 = storage w1) by reflexivity.
    split; [reflexivity|].
    split; [eapply settled_trans; [exact Hs1|]; eapply settled_trans; eassumption|].
    split.
    { rewrite Hl3. subst w2. simpl. rewrite Hp1, <- app_assoc. reflexivity. }
    split; [rewrite Hss3; subst w2; simpl; now rewrite Hp1|].
    split; [rewrite Hc3; subst w2; simpl; now rewrite Hp1|].
    split; [rewrite Hk3; subst w2; simpl; now rewrite Hp1|].
    split.
    { constructor.
      - subst b. destruct (faulty 2 (faults w)); [discriminate | auto].
      - eapply Forall2_impl; [|exact Hall3]. intros s0 b0 Hb0 Hb.
        rewrite <- (settled_is_cached (file s0) w w1 Hs1). rewrite <- Hst2. auto. }
    intros Hf.
    assert (Hf2 : faults w2 = []) by (subst w2; simpl; auto).
    destruct (Hf3 Hf2) as [Hbs Hf3'].
    split; [|assumption]. simpl. f_equal.
    + subst b. now rewrite Hf.
    + rewrite Hbs. apply map_ext. intros s0.
      rewrite Hst2. apply (settled_is_cached (file s0) w w1 Hs1).
Qed.

Lemma renderSessions_rows_spec sel w :
  exists bs w',
    renderSessions sel w = (Resolved tt, w') /\
    settled w w' /\
    sessionList (page w') = combine (map id (filtered_sessions sel w)) bs /\
    sessions (page w') = sessions (page w) /\
    current (page w') = current (page w) /\
    offlineToggle_checked (page w') = offlineToggle_checked (page w) /\
    Forall2 (fun s b => b = true -> is_cached (file s) (storage w) = true)
            (filtered_sessions sel w) bs /\
    (faults w = [] ->
     bs = map (fun s => is_cached (file s) (storage w)) (filtered_sessions sel w)).
Proof.
  unfold renderSessions, bind, modify, gets.
  set (w0 := set_page (set_sessionList [] (page w)) w).
  change (if String.eqb sel "all" then sessions (page w0)
          else filter (fun s => String.eqb (category s) sel) (sessions (page w0)))
    with (filtered_sessions sel w).
  destruct (render_rows_rows (filtered_sessions sel w) w0)
    as (bs & w' & Heq & Hs & Hl & Hss & Hc & Hk & Hall & Hf).
  exists bs, w'. rewrite Heq.
  assert (Hs0 : settled w w0).
  { destruct w as [s n f l c p]. unfold settled. simpl. auto. }
  split; [reflexivity|].
  split; [eapply settled_trans; eassumption|].
  repeat split; try assumption.
  intros Hfw. apply (Hf Hfw).
Qed.

Lemma combine_map_fst {A B} (xs : list A) (ys : list B) :
  length ys = length xs -> map fst (combine xs ys) = xs.
Proof.
  revert ys. induction xs as [|x xs IH]; intros [|y ys] H; simpl in *;
    try discriminate; [reflexivity|]. f_equal. apply IH. now injection H.
Qed.

Lemma combine_map_self {A B C} (f : A -> B) (g : A -> C) (xs : list A) :
  combine (map f xs) (map g xs) = map (fun x => (f x, g x)) xs.
Proof. induction xs as [|x xs IH]; simpl; [reflexivity | now rewrite IH]. Qed.

(** X8.  A render pass always completes and never goes to the network.  It
    lists the sessions of the chosen category (all of them for [all]) in
    catalog order; a row carries the offline badge only if the audio store
    holds the session's file, and, when no storage operation is rejected,
    exactly if it does. *)
Theorem renderSessions_badges sel w :
  let w' := run (renderSessions sel) w in
  let shown := filtered_sessions sel w in
  result (renderSessions sel) w = Resolved tt /\
  fetched w' = fetched w /\
  map fst (sessionList (page w')) = map id shown /\
  (forall i, In (i, true) (sessionList (page w')) ->
             exists s, In s shown /\ id s = i /\ is_cached (file s) (storage w) = true) /\
  (faults w = [] ->
   sessionList (page w') = map (fun s => (id s, is_cached (file s) (storage w))) shown).
Proof.
  cbv zeta. unfold result, run.
  destruct (renderSessions_rows_spec sel w)
    as (bs & w' & Heq & (_ & Hfet & _) & Hl & _ & _ & _ & Hall & Hf).
  rewrite Heq. cbn [fst snd].
  assert (Hlen : length bs = length (map id (filtered_sessions sel w))).
  { rewrite length_map. symmetry. eapply Forall2_length; eassumption. }
  split; [reflexivity|]. split; [assumption|]. split; [|split].
  - rewrite Hl. now apply combine_map_fst.
  - rewrite Hl. clear Hl Hf Heq Hlen.
    induction Hall as [|s b ss bs' Hb _ IH]; simpl; [contradiction|].
    intros i [Hi|Hi].
    + inversion Hi; subst. exists s. auto.
    + destruct (IH i Hi) as (s' & Hin & Hid & Hc). exists s'. auto.
  - intros Hfw. rewrite Hl, (Hf Hfw). apply combine_map_self.
Qed.

Lemma renderSessions_badges_witness :
  let w := world0 [(AudioStore, [(rain, rain_audio)])] offline [] in
  sessionList (page (run (renderSessions "all") w)) = [("rain", true)].
Proof.
  intros w.
  exact (proj2 (proj2 (proj2 (proj2 (renderSessions_badges "all" w)))) eq_refl).
Defined.

(** Replaces a render pass by its outcome. *)
Ltac render :=
  match goal with
  | |- context [renderSessions ?sel ?w0] =>
    let bs := fresh "bs" in
    let w' := fresh "w'" in
    let Heq := fresh "Heq" in
    let Hn := fresh "Hn" in
    let Hf := fresh "Hf" in
    let Ht := fresh "Ht" in
    let Hs := fresh "Hs" in
    let Hss := fresh "Hss" in
    let Hc := fresh "Hc" in
    let Hk := fresh "Hk" in
    destruct (renderSessions_rows_spec sel w0)
      as (bs & w' & Heq & (Hn & Hf & Ht & Hs) & _ & Hss & Hc & Hk & _ & _);
    rewrite Heq; cbn in Hn, Hf, Ht, Hs, Hss, Hc, Hk
  end.


Lemma find_entry_after_remove name k m req s :
  name <> m \/ k <> req ->
  find_entry k (entries name (update_store m (remove_entry req) s))
  = find_entry k (entries name s).
Proof.
  intros H. destruct (String.eqb m name) eqn:E.
  - apply String.eqb_eq in E. subst m.
    destruct H as [H|H]; [contradiction|].
    destruct (has_store name s) eqn:Hs.
    + rewrite entries_update_same by assumption.
      apply find_entry_remove_other, Request_eqb_neq. congruence.
    + unfold entries, has_store in *. rewrite lookup_update_same.
      destruct (lookup_store name s); [discriminate | reflexivity].
  - now rewrite entries_update_other.
Qed.

Lemma remove_entry_absent k c : find_entry k c = None -> remove_entry k c = c.
Proof.
  unfold remove_entry. induction c as [|[k' r'] c IH]; simpl; [reflexivity|].
  destruct (Request_eqb k' k); [discriminate|]. intros H. simpl. now rewrite IH.
Qed.

(** One untick of the offline box: the handler returns without going to the
    network; either a storage operation was rejected, the failure is
    reported and every store has the entries it had, or nothing is reported
    and the entry of the session's file is gone from the audio store. *)
Lemma unmarkOffline_spec cur w :
  exists w',
    unmarkOffline cur w = (Resolved tt, w') /\
    network w' = network w /\
    fetched w' = fetched w /\
    ((update_failed w' /\ same_entries (storage w) (storage w') /\
      faulty 2 (faults w) = true) \/
     (errorToast (page w') = errorToast (page w) /\
      storage w' = update_store AudioStore (remove_entry (file cur))
                                (with_store AudioStore (storage w)))).
Proof.
  destruct w as [s n f l c p]. destruct p as [ss cur0 sel b rows toast].
  unfold unmarkOffline, user_toggles, offlineToggle_change, update_offline,
    update_failed, AudioStore.
  assert (Hhas : with_store "calmstart-audio-v1"
                   (update_store "calmstart-audio-v1" (remove_entry (file cur))
                      (with_store "calmstart-audio-v1" s))
                 = update_store "calmstart-audio-v1" (remove_entry (file cur))
                      (with_store "calmstart-audio-v1" s)).
  { apply with_store_has. rewrite has_store_update. apply has_store_with_store. }
  exec. destruct f as [|[] [|[] f]]; cbv iota beta;
    try (eexists; split; [reflexivity|]; cbn;
         split; [reflexivity|]; split; [reflexivity|]; left;
         split; [reflexivity|]; split; [|reflexivity];
         first [apply same_entries_refl | apply same_entries_with_store]);
    render; unfold AudioStore in *; rewrite Hhas in *;
    (eexists; split; [reflexivity|]; split; [assumption|]; split; [assumption|];
     right; split; [assumption | tauto]).
Qed.

(** X9.  Unticking the offline box never goes to the network.  When its two
    storage operations are not rejected it reports no failure, the file is
    no longer cached, and a lookup of any other request, or in any other
    store, gives what it gave before; if the file was not cached in the
    first place, every lookup does: unticking is then a silent no-op. *)
Theorem unmarkOffline_removes cur w :
  let w1 := run (unmarkOffline cur) w in
  fetched w1 = fetched w /\
  (faulty 2 (faults w) = false ->
   errorToast (page w1) = errorToast (page w) /\
   is_cached (file cur) (storage w1) = false /\
   (forall name k,
       name <> AudioStore \/ k <> file cur ->
       find_entry k (entries name (storage w1)) = find_entry k (entries name (storage w))) /\
   (is_cached (file cur) (storage w) = false -> same_entries (storage w) (storage w1))).
Proof.
  cbv zeta. unfold run.
  destruct (unmarkOffline_spec cur w) as (w1 & Heq & _ & Hfet & Hcases).
  rewrite Heq. cbn [snd]. split; [assumption|]. intros Hf.
  destruct Hcases as [(_ & _ & Hbad)|[Htoast Hst]]; [congruence|].
  split; [assumption|]. rewrite Hst. split; [|split].
  - unfold is_cached.
    rewrite entries_update_same by apply has_store_with_store.
    now rewrite find_entry_remove.
  - intros name k Hk. rewrite find_entry_after_remove by assumption.
    now rewrite entries_with_store.
  - unfold is_cached. intros Habs name.
    destruct (String.eqb AudioStore name) eqn:E.
    + apply String.eqb_eq in E. subst name.
      rewrite entries_update_same by apply has_store_with_store.
      rewrite entries_with_store. apply remove_entry_absent.
      destruct (find_entry (file cur) (entries AudioStore (storage w)));
        [discriminate | reflexivity].
    + rewrite entries_update_other by assumption. apply entries_with_store.
Qed.

Lemma unmarkOffline_removes_witness :
  let w := world0 [(AudioStore, [(rain, rain_audio)])] offline [] in
  is_cached rain (storage (run (unmarkOffline rain_session) w)) = false /\
  same_entries (storage (world0 [] offline []))
               (storage (run (unmarkOffline rain_session) (world0 [] offline []))).
Proof.
  intros w. split.
  - exact (proj1 (proj2 (proj2 (unmarkOffline_removes rain_session w) eq_refl))).
  - exact (proj2 (proj2 (proj2 (proj2 (unmarkOffline_removes rain_session
                                         (world0 [] offline [])) eq_refl))) eq_refl).
Defined.

(** X10.  After a tick of the offline box that reported no failure, the
    membership check for the session's file says yes, whatever the network
    has become, and does not go to the network. *)
Theorem markOffline_then_cached cur w :
  errorToast (page w) = None ->
  let w1 := run (markOffline cur) w in
  errorToast (page w1) = None ->
  forall n f,
    faulty 2 f = false ->
    let w2 := set_network n (set_faults f w1) in
    result (isCached (file cur)) w2 = Resolved true /\
    fetched (run (isCached (file cur)) w2) = fetched w2.
Proof.
  intros Htoast. cbv zeta. unfold result, run, isCached.
  destruct (markOffline_spec cur w Htoast) as (w1 & Heq & _ & Hcases).
  rewrite Heq. cbn [snd]. intros Hnone n f Hf.
  rewrite isSessionCached_result, isSessionCached_no_fetch.
  split; [|reflexivity].
  change (faults (set_network n (set_faults f w1))) with f. rewrite Hf.
  change (storage (set_network n (set_faults f w1))) with (storage w1).
  destruct Hcases as [[Hfail _]|[_ (r & _ & _ & Hst)]];
    [unfold update_failed in Hfail; congruence|].
  f_equal. unfold is_cached. rewrite Hst.
  rewrite entries_update_same by apply has_store_with_store.
  now rewrite find_entry_put_same.
Qed.

Lemma markOffline_then_cached_witness :
  let w1 := run (markOffline rain_session) (world0 [] (serving rain_audio) []) in
  result (isCached rain) (set_network offline (set_faults [] w1)) = Resolved true.
Proof.
  intros w1.
  exact (proj1 (markOffline_then_cached rain_session (world0 [] (serving rain_audio) [])
                  eq_refl eq_refl offline [] eq_refl)).
Defined.




(* ================================================================= *)
(** ** Statistics *)















